(** * fury/util/status.cc: the status value and its code <-> string tables

    A shallow embedding of [src/fury/util/status.cc].  A [Status] owns a
    nullable pointer [state_] to a heap-allocated [State] (a code and a
    message); the null pointer is the success status.  The heap of [State]
    objects is explicit, so that [new], [delete], copying and aliasing are
    visible in the statements.  The two [std::unordered_map] tables are finite
    maps. *)

From stdpp Require Import gmap strings list fin_maps.

Local Open Scope string_scope.

(** ** The enumeration [StatusCode] *)

Module StatusCode.

(** Modelled from the spec: the declaration of [enum class StatusCode] is in
    [status.h], which is not part of the sources at hand.  The seven
    enumerators are the ones [status.cc] names (the spec lists the same
    seven).  A C++ enumeration object can hold every value of its underlying
    integer type, so the type has further values that [status.cc] never
    names; [Unlisted n] stands for the [n]-th of them. *)
Inductive t : Set :=
| OK
| OutOfMemory
| KeyError
| TypeError
| Invalid
| IOError
| UnknownError
| Unlisted (n : N).

#[global] Instance code_eq_dec : EqDecision t.
Proof. solve_decision. Defined.

Definition to_sum (c : t) : nat + N :=
  match c with
  | OK => inl 0%nat
  | OutOfMemory => inl 1%nat
  | KeyError => inl 2%nat
  | TypeError => inl 3%nat
  | Invalid => inl 4%nat
  | IOError => inl 5%nat
  | UnknownError => inl 6%nat
  | Unlisted n => inr n
  end.

Definition of_sum (x : nat + N) : t :=
  match x with
  | inl 0%nat => OK
  | inl 1%nat => OutOfMemory
  | inl 2%nat => KeyError
  | inl 3%nat => TypeError
  | inl 4%nat => Invalid
  | inl 5%nat => IOError
  | inl _ => UnknownError
  | inr n => Unlisted n
  end.

(** [std::hash<fury::StatusCode>] (status.cc, lines 6-10) makes the
    enumeration usable as a key of [std::unordered_map]; here the
    countability of the type does the same for [gmap]. *)
#[global] Program Instance countable : Countable t :=
  inj_countable' to_sum of_sum _.
Next Obligation. by intros []. Qed.

(** The seven enumerators that [status.cc] names. *)
Definition named : list t :=
  [OK; OutOfMemory; KeyError; TypeError; Invalid; IOError; UnknownError].

End StatusCode.

(** ** The canonical strings (the [#define]s of lines 13-19) *)

Definition STATUS_CODE_OK : string := "OK".
Definition STATUS_CODE_OUT_OF_MEMORY : string := "Out of memory".
Definition STATUS_CODE_KEY_ERROR : string := "Key error".
Definition STATUS_CODE_TYPE_ERROR : string := "Type error".
Definition STATUS_CODE_INVALID : string := "Invalid".
Definition STATUS_CODE_IO_ERROR : string := "IOError".
Definition STATUS_CODE_UNKNOWN_ERROR : string := "Unknown error".

Definition canonical_strings : list string :=
  [STATUS_CODE_OK; STATUS_CODE_OUT_OF_MEMORY; STATUS_CODE_KEY_ERROR;
   STATUS_CODE_TYPE_ERROR; STATUS_CODE_INVALID; STATUS_CODE_IO_ERROR;
   STATUS_CODE_UNKNOWN_ERROR].

(** ** The payload [State] and the heap *)

Module State.

(** Modelled from the spec: [struct State] is declared in [status.h]; its
    two fields are the ones [status.cc] assigns, [code] and [msg]. *)
Record t : Set := mk { code : StatusCode.t; msg : string }.

#[global] Instance state_eq_dec : EqDecision t.
Proof. solve_decision. Defined.

Definition with_code (c : StatusCode.t) (st : t) : t := mk c (msg st).
Definition with_msg (m : string) (st : t) : t := mk (code st) m.

(** What [new State] leaves in the fresh object: the message is the empty
    string, the code is indeterminate.  The placeholder below is never read:
    the constructor assigns both fields before it returns. *)
Definition default : t := mk (StatusCode.Unlisted 0) "".

End State.

(** Addresses of [State] objects; a pointer is an optional address, [None]
    being [nullptr]. *)
Definition loc : Set := positive.
Definition ptr : Set := option loc.
Abbreviation nullptr := (@None loc).

(** The heap holds the live [State] objects. *)
Abbreviation heap := (gmap loc State.t).

(** ** Executions

    A call either returns a value and a heap, or stops at a failed [assert],
    or has undefined behaviour (it uses a pointer that is null or dangling). *)

Inductive outcome (A : Type) : Type :=
| Returns (a : A) (h : heap)
| AssertionFailure
| Undefined.
Arguments Returns {A} a h.
Arguments AssertionFailure {A}.
Arguments Undefined {A}.

Definition exec (A : Type) : Type := heap -> outcome A.

#[global] Instance exec_ret : MRet exec := fun A a h => Returns a h.

#[global] Instance exec_bind : MBind exec := fun A B f m h =>
  match m h with
  | Returns a h' => f a h'
  | AssertionFailure => AssertionFailure
  | Undefined => Undefined
  end.

(** [assert(b)] of [<assert.h>], assertions enabled. *)
Definition assert_ (b : bool) : exec unit :=
  fun h => if b then Returns tt h else AssertionFailure.

(** [new State(st)]: a fresh address, holding a copy of [st]. *)
Definition alloc (st : State.t) : exec loc :=
  fun h => let l := fresh (dom h) in Returns l (<[l := st]> h).

(** [new State]. *)
Definition new_State : exec loc := alloc State.default.

(** Reading the object [p] points to. *)
Definition load (p : ptr) : exec State.t :=
  fun h =>
    match p with
    | None => Undefined
    | Some l =>
        match h !! l with
        | Some st => Returns st h
        | None => Undefined
        end
    end.

(** Assignment through [p] to one field of the object it points to. *)
Definition update (p : ptr) (f : State.t -> State.t) : exec unit :=
  fun h =>
    match p with
    | None => Undefined
    | Some l =>
        match h !! l with
        | Some st => Returns tt (<[l := f st]> h)
        | None => Undefined
        end
    end.

(** [delete p]: nothing for the null pointer, the object is released
    otherwise. *)
Definition delete_ (p : ptr) : exec unit :=
  fun h =>
    match p with
    | None => Returns tt h
    | Some l =>
        match h !! l with
        | Some _ => Returns tt (delete l h)
        | None => Undefined
        end
    end.

(** ** The class [Status] *)

Module Status.

(** Modelled from the spec: the class is declared in [status.h]; its one
    data member is the pointer [state_] that [status.cc] reads and writes. *)
Record t : Set := mk { state_ : ptr }.

(** Modelled from the spec: the success status [Ok()] of [status.h] has no
    payload; in the representation of [status.cc] that is the null
    [state_] (lines 39 and 48). *)
Definition Ok : t := mk nullptr.

(** Modelled from the spec: [IsOk()] of [status.h], true iff the status is
    the success one. *)
Definition IsOk (this : t) : bool := bool_decide (state_ this = nullptr).

(** Modelled from the spec: the accessor [code()] of [status.h] that
    [CodeAsString] calls (the spec's [Kind()]): [OK] for the success
    status, else the stored code. *)
Definition code (this : t) : exec StatusCode.t :=
  if IsOk this then mret StatusCode.OK
  else st ← load (state_ this); mret (State.code st).

(** Modelled from the spec: [Message()] of [status.h], empty for the success
    status, else the stored message. *)
Definition Message (this : t) : exec string :=
  if IsOk this then mret ""
  else st ← load (state_ this); mret (State.msg st).

(** Modelled from the spec: the destructor of [status.h]; a status owns its
    payload, which ends with it. *)
Definition destroy (this : t) : exec unit := delete_ (state_ this).

(** [Status::Status(StatusCode code, const std::string &msg)],
    lines 21-26. *)
Definition Status (code : StatusCode.t) (msg : string) : exec t :=
  assert_ (bool_decide (code ≠ StatusCode.OK));;
  p ← new_State;
  let this := mk (Some p) in
  update (state_ this) (State.with_code code);;
  update (state_ this) (State.with_msg msg);;
  mret this.

(** [void Status::CopyFrom(const State *state)], lines 28-35.  The method
    assigns to [this->state_]; the updated object is the result. *)
Definition CopyFrom (this : t) (state : ptr) : exec t :=
  delete_ (state_ this);;
  if bool_decide (state = nullptr) then
    mret (mk nullptr)
  else
    st ← load state;
    p ← alloc st;
    mret (mk (Some p)).

(** The table [code_to_str] of [CodeAsString], lines 53-61. *)
Definition code_to_str : gmap StatusCode.t string :=
  list_to_map
    [ (StatusCode.OK, STATUS_CODE_OK);
      (StatusCode.OutOfMemory, STATUS_CODE_OUT_OF_MEMORY);
      (StatusCode.KeyError, STATUS_CODE_KEY_ERROR);
      (StatusCode.TypeError, STATUS_CODE_TYPE_ERROR);
      (StatusCode.Invalid, STATUS_CODE_INVALID);
      (StatusCode.IOError, STATUS_CODE_IO_ERROR);
      (StatusCode.UnknownError, STATUS_CODE_UNKNOWN_ERROR) ].

(** [std::string Status::CodeAsString() const], lines 47-68. *)
Definition CodeAsString (this : t) : exec string :=
  if bool_decide (state_ this = nullptr) then mret STATUS_CODE_OK
  else
    c ← code this;
    match code_to_str !! c with
    | None => mret STATUS_CODE_UNKNOWN_ERROR
    | Some s => mret s
    end.

(** [std::string Status::ToString() const], lines 37-45. *)
Definition ToString (this : t) : exec string :=
  result ← CodeAsString this;
  if bool_decide (state_ this = nullptr) then mret result
  else
    let result := result +:+ ": " in
    st ← load (state_ this);
    let result := result +:+ State.msg st in
    mret result.

(** The table [str_to_code] of [StringToCode], lines 72-80. *)
Definition str_to_code : gmap string StatusCode.t :=
  list_to_map
    [ (STATUS_CODE_OK, StatusCode.OK);
      (STATUS_CODE_OUT_OF_MEMORY, StatusCode.OutOfMemory);
      (STATUS_CODE_KEY_ERROR, StatusCode.KeyError);
      (STATUS_CODE_TYPE_ERROR, StatusCode.TypeError);
      (STATUS_CODE_INVALID, StatusCode.Invalid);
      (STATUS_CODE_IO_ERROR, StatusCode.IOError);
      (STATUS_CODE_UNKNOWN_ERROR, StatusCode.UnknownError) ].

(** [StatusCode Status::StringToCode(const std::string &str)],
    lines 70-87. *)
Definition StringToCode (str : string) : StatusCode.t :=
  match str_to_code !! str with
  | None => StatusCode.IOError
  | Some c => c
  end.

End Status.

(** ** Statuses and their payload *)

(** The payload a status owns is live in the heap. *)
Definition valid (h : heap) (this : Status.t) : Prop :=
  match Status.state_ this with
  | None => True
  | Some l => is_Some (h !! l)
  end.

(** The addresses a pointer occupies: none for [nullptr]. *)
Definition cells (p : ptr) : gset loc :=
  match p with
  | None => ∅
  | Some l => {[ l ]}
  end.

(** The heap once the object behind [p] is released. *)
Definition release (p : ptr) (h : heap) : heap :=
  match p with
  | None => h
  | Some l => delete l h
  end.

(** A heap with two failures, used to run the copy. *)
Definition two_failures : heap :=
  {[ 1%positive := State.mk StatusCode.KeyError "k";
     2%positive := State.mk StatusCode.IOError "disk" ]}.

(** The addresses the statuses of a program own, in order. *)
Definition payloads (ss : list Status.t) : list loc := omap Status.state_ ss.

(** The statuses [ss] own the heap: no two of them share a payload, and the
    live objects are exactly their payloads (nothing dangles, nothing
    leaks). *)
Definition owns (h : heap) (ss : list Status.t) : Prop :=
  NoDup (payloads ss) ∧ dom h = list_to_set (payloads ss).

(** The string a failure with payload [st] prints as its kind: the row of
    [code_to_str], or the fallback of line 65. *)
Definition kind_string (st : State.t) : string :=
  default STATUS_CODE_UNKNOWN_ERROR (Status.code_to_str !! State.code st).

Ltac exec_unfold :=
  unfold mbind, exec_bind, mret, exec_ret, assert_, new_State, alloc, load,
    update, delete_ in *.

(** ** Running the code on concrete inputs *)

Example StringToCode_Invalid :
  Status.StringToCode "Invalid" = StatusCode.Invalid.
Proof. vm_compute. reflexivity. Qed.

Example ToString_key_error :
  (s ← Status.Status StatusCode.KeyError "k"; Status.ToString s) ∅
  = Returns "Key error: k" {[ 1%positive := State.mk StatusCode.KeyError "k" ]}.
Proof. vm_compute. reflexivity. Qed.

(** ** Strings *)

Lemma append_assoc (s1 s2 s3 : string) :
  (s1 +:+ s2) +:+ s3 = s1 +:+ (s2 +:+ s3).
Proof.
  induction s1 as [|a s1 IH]; [reflexivity|].
  cbn [String.append]. unfold String.app in *. cbn. by rewrite IH.
Qed.

Lemma length_append (s1 s2 : string) :
  String.length (s1 +:+ s2) = String.length s1 + String.length s2.
Proof.
  induction s1 as [|a s1 IH]; [reflexivity|].
  cbn. unfold String.app in *. cbn. by rewrite IH.
Qed.

Lemma append_separator_neq (s : string) : s +:+ ": " ≠ s.
Proof.
  intros E. apply (f_equal String.length) in E.
  rewrite length_append in E. cbn in E. lia.
Qed.

(** ** The two tables *)

Section tables.

Import StatusCode.

(** What [code_to_str.find(c)] gives, for every value of the enumeration. *)
Lemma code_to_str_lookup (c : StatusCode.t) :
  Status.code_to_str !! c =
    match c with
    | OK => Some STATUS_CODE_OK
    | OutOfMemory => Some STATUS_CODE_OUT_OF_MEMORY
    | KeyError => Some STATUS_CODE_KEY_ERROR
    | TypeError => Some STATUS_CODE_TYPE_ERROR
    | Invalid => Some STATUS_CODE_INVALID
    | IOError => Some STATUS_CODE_IO_ERROR
    | UnknownError => Some STATUS_CODE_UNKNOWN_ERROR
    | Unlisted _ => None
    end.
Proof. by destruct c. Qed.

Lemma code_to_str_named (c : StatusCode.t) :
  c ∈ named ↔ is_Some (Status.code_to_str !! c).
Proof.
  rewrite code_to_str_lookup. unfold named. split.
  - intros Hc. repeat (apply elem_of_cons in Hc as [->|Hc]; [by eexists|]).
    by apply elem_of_nil in Hc.
  - destruct c; intros [s Hs]; try discriminate; set_solver.
Qed.

(** [str_to_code.find(str)] finds nothing unless [str] is one of the seven
    keys. *)
Lemma str_to_code_lookup_None (str : string) :
  str ∉ canonical_strings → Status.str_to_code !! str = None.
Proof.
  unfold canonical_strings. rewrite !not_elem_of_cons.
  intros (? & ? & ? & ? & ? & ? & ? & _).
  unfold Status.str_to_code; simpl.
  rewrite !lookup_insert_ne by congruence.
  apply lookup_empty.
Qed.

(** Each canonical string decodes to the enumerator of its table row. *)
Lemma StringToCode_canonical_strings :
  Status.StringToCode <$> canonical_strings = named.
Proof. vm_compute. reflexivity. Qed.

End tables.

(** ** Heap accesses *)

Lemma fresh_unused (h : heap) : h !! fresh (dom h) = None.
Proof. apply not_elem_of_dom, is_fresh. Qed.

Section accessors.

Variables (h : heap) (l : loc) (st : State.t).
Hypothesis Hl : h !! l = Some st.

Lemma code_at : Status.code (Status.mk (Some l)) h = Returns (State.code st) h.
Proof. unfold Status.code; simpl. exec_unfold. by rewrite Hl. Qed.

Lemma Message_at :
  Status.Message (Status.mk (Some l)) h = Returns (State.msg st) h.
Proof. unfold Status.Message; simpl. exec_unfold. by rewrite Hl. Qed.

Lemma CodeAsString_at :
  Status.CodeAsString (Status.mk (Some l)) h =
    Returns (default STATUS_CODE_UNKNOWN_ERROR
               (Status.code_to_str !! State.code st)) h.
Proof.
  unfold Status.CodeAsString; simpl.
  unfold mbind at 1, exec_bind. rewrite code_at.
  by destruct (Status.code_to_str !! State.code st).
Qed.

Lemma ToString_at :
  Status.ToString (Status.mk (Some l)) h =
    Returns (default STATUS_CODE_UNKNOWN_ERROR
               (Status.code_to_str !! State.code st)
             +:+ ": " +:+ State.msg st) h.
Proof.
  unfold Status.ToString.
  unfold mbind at 1, exec_bind. rewrite CodeAsString_at. simpl.
  exec_unfold. rewrite Hl. by rewrite append_assoc.
Qed.

End accessors.

(** ** Construction and the observers *)

Lemma IsOk_null (this : Status.t) :
  Status.IsOk this = true ↔ Status.state_ this = nullptr.
Proof. unfold Status.IsOk. by rewrite bool_decide_eq_true. Qed.

Lemma IsOk_Some (l : loc) : Status.IsOk (Status.mk (Some l)) = false.
Proof. reflexivity. Qed.

(** What the constructor returns when its assertion holds: a status that owns
    a fresh object with the two fields assigned. *)
Lemma Status_returns (c : StatusCode.t) (m : string) (h : heap) :
  c ≠ StatusCode.OK →
  Status.Status c m h =
    Returns (Status.mk (Some (fresh (dom h))))
            (<[fresh (dom h) := State.mk c m]> h).
Proof.
  intros Hc. unfold Status.Status. exec_unfold.
  rewrite bool_decide_eq_true_2 by done. simpl.
  rewrite !lookup_insert_eq. simpl.
  by rewrite !insert_insert_eq.
Qed.

Lemma Status_OK_fails (m : string) (h : heap) :
  Status.Status StatusCode.OK m h = AssertionFailure.
Proof. reflexivity. Qed.

(** The observers of a valid status return, and leave the heap as it is. *)
Lemma observers_return (h : heap) (this : Status.t) :
  valid h this →
  ∃ c m s,
    Status.code this h = Returns c h
    ∧ Status.Message this h = Returns m h
    ∧ Status.CodeAsString this h = Returns s h
    ∧ Status.ToString this h =
        Returns (if Status.IsOk this then s else s +:+ ": " +:+ m) h.
Proof.
  destruct this as [[l|]]; unfold valid; simpl.
  - intros [st Hst].
    exists (State.code st), (State.msg st),
      (default STATUS_CODE_UNKNOWN_ERROR (Status.code_to_str !! State.code st)).
    split; [by apply code_at|]. split; [by apply Message_at|].
    split; [by apply CodeAsString_at|]. by apply ToString_at.
  - intros _. by exists StatusCode.OK, "", STATUS_CODE_OK.
Qed.

Lemma code_inv (h : heap) (this : Status.t) (c : StatusCode.t) :
  Status.code this h = Returns c h →
  (Status.state_ this = nullptr ∧ c = StatusCode.OK)
  ∨ (∃ l st, Status.state_ this = Some l ∧ h !! l = Some st
             ∧ State.code st = c).
Proof.
  destruct this as [[l|]]; unfold Status.code; simpl; exec_unfold.
  - destruct (h !! l) as [st|] eqn:Hst; [|discriminate].
    intros [= <-]. right. by exists l, st.
  - intros [= <-]. by left.
Qed.

(** [CodeAsString] in terms of the code the status reports. *)
Lemma CodeAsString_of_code (h : heap) (this : Status.t) (c : StatusCode.t) :
  Status.code this h = Returns c h →
  Status.CodeAsString this h =
    Returns (if Status.IsOk this then STATUS_CODE_OK
             else default STATUS_CODE_UNKNOWN_ERROR (Status.code_to_str !! c)) h.
Proof.
  intros [[Hn ->]|(l & st & Hl & Hst & <-)]%code_inv; destruct this as [p];
    simpl in *; subst p; [reflexivity|].
  by apply CodeAsString_at.
Qed.

(** A status whose code has a row in [code_to_str] prints as that row. *)
Lemma CodeAsString_row (c : StatusCode.t) (s : string)
    (h : heap) (this : Status.t) :
  Status.code_to_str !! c = Some s →
  Status.code this h = Returns c h →
  Status.CodeAsString this h = Returns s h.
Proof.
  intros Hs Hc. rewrite (CodeAsString_of_code h this c Hc), Hs. simpl.
  apply code_inv in Hc as [[Hn ->]|(l & st & Hl & _)].
  - rewrite code_to_str_lookup in Hs. injection Hs as <-.
    by rewrite (proj2 (IsOk_null this) Hn).
  - unfold Status.IsOk. by rewrite Hl.
Qed.

(** * The properties of the specification *)

(** ** The conversion tables *)

(** C1. Encoding then decoding is the identity on the seven kinds that the
    code names: the table [code_to_str] has a string for such a kind [K],
    [CodeAsString] returns that string for every status whose code is [K],
    and [StringToCode] maps the string back to [K]. *)
Theorem encode_then_decode (K : StatusCode.t) :
  K ∈ StatusCode.named →
  ∃ s : string,
    Status.code_to_str !! K = Some s
    ∧ (∀ (h : heap) (this : Status.t),
         Status.code this h = Returns K h →
         Status.CodeAsString this h = Returns s h)
    ∧ Status.StringToCode s = K.
Proof.
  intros [s Hs]%code_to_str_named. exists s. split; [done|]. split.
  - intros h this. by apply CodeAsString_row.
  - rewrite code_to_str_lookup in Hs.
    destruct K; simplify_eq; by vm_compute.
Qed.

Lemma encode_then_decode_TypeError :
  ∃ s : string,
    Status.code_to_str !! StatusCode.TypeError = Some s
    ∧ (∀ (h : heap) (this : Status.t),
         Status.code this h = Returns StatusCode.TypeError h →
         Status.CodeAsString this h = Returns s h)
    ∧ Status.StringToCode s = StatusCode.TypeError.
Proof.
  apply (encode_then_decode StatusCode.TypeError).
  unfold StatusCode.named. set_solver.
Defined.

(** C2. A string that is none of the seven canonical strings decodes to
    [IOError], which is not [UnknownError]. *)
Theorem StringToCode_unmatched (str : string) :
  str ∉ canonical_strings →
  Status.StringToCode str = StatusCode.IOError
  ∧ Status.StringToCode str ≠ StatusCode.UnknownError.
Proof.
  intros Hstr. unfold Status.StringToCode.
  by rewrite (str_to_code_lookup_None str Hstr).
Qed.

Lemma StringToCode_not_a_real_code :
  Status.StringToCode "not-a-real-code" = StatusCode.IOError
  ∧ Status.StringToCode "not-a-real-code" ≠ StatusCode.UnknownError.
Proof.
  apply (StringToCode_unmatched "not-a-real-code").
  unfold canonical_strings. rewrite !not_elem_of_cons.
  repeat split; try discriminate. apply not_elem_of_nil.
Defined.

(** C9. Decoding then encoding is the identity on the seven canonical
    strings: [StringToCode] maps such a string [s] to one of the seven named
    kinds, the row of that kind in [code_to_str] is [s], and [CodeAsString]
    returns [s] for every status whose code is that kind. *)
Theorem decode_then_encode (s : string) :
  s ∈ canonical_strings →
  Status.StringToCode s ∈ StatusCode.named
  ∧ Status.code_to_str !! Status.StringToCode s = Some s
  ∧ (∀ (h : heap) (this : Status.t),
       Status.code this h = Returns (Status.StringToCode s) h →
       Status.CodeAsString this h = Returns s h).
Proof.
  intros Hs.
  assert (Status.StringToCode s ∈ StatusCode.named
          ∧ Status.code_to_str !! Status.StringToCode s = Some s) as [Hn Ht].
  { unfold canonical_strings in Hs.
    repeat (apply elem_of_cons in Hs as [->|Hs];
            [split; [vm_compute; set_solver | by vm_compute]|]).
    by apply elem_of_nil in Hs. }
  split; [done|]. split; [done|].
  intros h this. by apply CodeAsString_row.
Qed.

Lemma decode_then_encode_Out_of_memory :
  Status.StringToCode "Out of memory" ∈ StatusCode.named
  ∧ Status.code_to_str !! Status.StringToCode "Out of memory"
    = Some "Out of memory"
  ∧ (∀ (h : heap) (this : Status.t),
       Status.code this h = Returns (Status.StringToCode "Out of memory") h →
       Status.CodeAsString this h = Returns "Out of memory" h).
Proof.
  apply (decode_then_encode "Out of memory").
  unfold canonical_strings. set_solver.
Defined.

(** C8. For a failure status whose code has no row in [code_to_str],
    [CodeAsString] returns the canonical string of [UnknownError]; it neither
    stops nor changes the heap. *)
Theorem CodeAsString_fallback (h : heap) (this : Status.t) (c : StatusCode.t) :
  Status.IsOk this = false →
  Status.code this h = Returns c h →
  Status.code_to_str !! c = None →
  Status.CodeAsString this h = Returns STATUS_CODE_UNKNOWN_ERROR h.
Proof.
  intros Hf Hc Hnone.
  by rewrite (CodeAsString_of_code h this c Hc), Hf, Hnone.
Qed.

Lemma CodeAsString_fallback_Unlisted :
  Status.CodeAsString (Status.mk (Some 1%positive))
    {[ 1%positive := State.mk (StatusCode.Unlisted 3) "m" ]}
  = Returns "Unknown error"
      {[ 1%positive := State.mk (StatusCode.Unlisted 3) "m" ]}.
Proof.
  apply (CodeAsString_fallback _ _ (StatusCode.Unlisted 3)); reflexivity.
Defined.

(** Such a status comes out of the constructor, whose assertion only
    excludes [OK]. *)
Example CodeAsString_Unlisted_run :
  (this ← Status.Status (StatusCode.Unlisted 3) "m"; Status.CodeAsString this)
    ∅
  = Returns "Unknown error"
      {[ 1%positive := State.mk (StatusCode.Unlisted 3) "m" ]}.
Proof. vm_compute. reflexivity. Qed.

(** ** Construction and observers *)

(** C4. For a kind [K] other than [OK] and a message [M], the constructor
    returns a status whose [state_] points to an object with code [K] and
    message [M]; for that status [IsOk] is false, [code] is [K] and [Message]
    is [M]. *)
Theorem Error_observers (K : StatusCode.t) (M : string) (h : heap) :
  K ≠ StatusCode.OK →
  ∃ (this : Status.t) (h' : heap),
    Status.Status K M h = Returns this h'
    ∧ (∃ l : loc, Status.state_ this = Some l
                  ∧ h' !! l = Some (State.mk K M))
    ∧ Status.IsOk this = false
    ∧ Status.code this h' = Returns K h'
    ∧ Status.Message this h' = Returns M h'.
Proof.
  intros HK. eexists _, _. split; [by apply Status_returns|].
  split; [eexists; split; [reflexivity | apply lookup_insert_eq]|].
  split; [reflexivity|].
  split.
  - by rewrite (code_at _ _ (State.mk K M)) by apply lookup_insert_eq.
  - by rewrite (Message_at _ _ (State.mk K M)) by apply lookup_insert_eq.
Qed.

Lemma Error_observers_KeyError :
  ∃ (this : Status.t) (h' : heap),
    Status.Status StatusCode.KeyError "no such key" ∅ = Returns this h'
    ∧ (∃ l : loc, Status.state_ this = Some l
                  ∧ h' !! l = Some (State.mk StatusCode.KeyError "no such key"))
    ∧ Status.IsOk this = false
    ∧ Status.code this h' = Returns StatusCode.KeyError h'
    ∧ Status.Message this h' = Returns "no such key" h'.
Proof.
  apply (Error_observers StatusCode.KeyError "no such key" ∅). discriminate.
Defined.

(** C5. The success status: [IsOk] is true, [code] is [OK], [Message] is the
    empty string and [ToString] is "OK", in every heap. *)
Theorem Ok_observers (h : heap) :
  Status.IsOk Status.Ok = true
  ∧ Status.code Status.Ok h = Returns StatusCode.OK h
  ∧ Status.Message Status.Ok h = Returns "" h
  ∧ Status.ToString Status.Ok h = Returns "OK" h.
Proof. repeat split. Qed.

(** C6. The constructor stops at its assertion when the kind is [OK],
    whatever the message, and returns no status then; when the kind is not
    [OK] the assertion holds and the constructor returns. *)
Theorem Status_assertion (K : StatusCode.t) (M : string) (h : heap) :
  (K = StatusCode.OK → Status.Status K M h = AssertionFailure)
  ∧ (K ≠ StatusCode.OK →
     Status.Status K M h ≠ AssertionFailure
     ∧ ∃ (this : Status.t) (h' : heap), Status.Status K M h = Returns this h').
Proof.
  split.
  - intros ->. apply Status_OK_fails.
  - intros HK. rewrite (Status_returns K M h HK). split; [discriminate|].
    by eexists _, _.
Qed.

Lemma Status_assertion_OK_x :
  Status.Status StatusCode.OK "x" ∅ = AssertionFailure
  ∧ Status.Status StatusCode.Invalid "x" ∅ ≠ AssertionFailure.
Proof.
  split.
  - apply (Status_assertion StatusCode.OK "x" ∅). reflexivity.
  - apply (Status_assertion StatusCode.Invalid "x" ∅). discriminate.
Defined.

(** ** Rendering *)

(** C3. [ToString] of a valid status returns exactly the canonical kind
    string when the status is the success one ([state_] is null): that is
    "OK".  Otherwise it returns the canonical kind string of the stored code
    (its row in [code_to_str], or "Unknown error" when it has none), then
    ": ", then the stored message [state_->msg], and nothing after it.  In
    both cases the kind string is the one [CodeAsString] returns. *)
Theorem ToString_format (h : heap) (this : Status.t) :
  valid h this →
  match Status.state_ this with
  | None =>
      Status.CodeAsString this h = Returns STATUS_CODE_OK h
      ∧ Status.ToString this h = Returns STATUS_CODE_OK h
  | Some l =>
      ∃ st : State.t,
        h !! l = Some st
        ∧ Status.CodeAsString this h =
            Returns (default STATUS_CODE_UNKNOWN_ERROR
                       (Status.code_to_str !! State.code st)) h
        ∧ Status.ToString this h =
            Returns (default STATUS_CODE_UNKNOWN_ERROR
                       (Status.code_to_str !! State.code st)
                     +:+ ": " +:+ State.msg st) h
  end.
Proof.
  destruct this as [[l|]]; unfold valid; simpl.
  - intros [st Hst]. exists st. split; [done|].
    split; [by apply CodeAsString_at | by apply ToString_at].
  - intros _. by split.
Qed.

(** The example of the specification: [Status(TypeError, "bad shape")]
    prints as "Type error: bad shape". *)
Lemma ToString_TypeError_bad_shape :
  (this ← Status.Status StatusCode.TypeError "bad shape"; Status.ToString this)
    ∅
  = Returns "Type error: bad shape"
      {[ 1%positive := State.mk StatusCode.TypeError "bad shape" ]}.
Proof.
  unfold mbind at 1, exec_bind.
  rewrite Status_returns by discriminate.
  destruct (ToString_format
              (<[fresh (dom (∅ : heap)) :=
                   State.mk StatusCode.TypeError "bad shape"]> ∅)
              (Status.mk (Some (fresh (dom (∅ : heap))))))
    as (st & Hst & _ & ->).
  { unfold valid; simpl. rewrite lookup_insert_eq. by eexists. }
  vm_compute in Hst. injection Hst as <-.
  vm_compute. reflexivity.
Defined.

(** C10. A failure built with the empty message prints as the canonical
    string of its kind (the row of the kind in [code_to_str], or "Unknown
    error" when it has none) followed by ": " and nothing else: the separator
    is there although the message is empty.  That differs from the bare kind
    string, which is what [CodeAsString] returns for it, and from the "OK"
    that the success status prints. *)
Theorem ToString_empty_message (K : StatusCode.t) (h : heap) :
  K ≠ StatusCode.OK →
  ∃ (this : Status.t) (h' : heap),
    Status.Status K "" h = Returns this h'
    ∧ Status.CodeAsString this h' =
        Returns (default STATUS_CODE_UNKNOWN_ERROR
                   (Status.code_to_str !! K)) h'
    ∧ Status.ToString this h' =
        Returns (default STATUS_CODE_UNKNOWN_ERROR
                   (Status.code_to_str !! K) +:+ ": ") h'
    ∧ Status.ToString this h' ≠
        Returns (default STATUS_CODE_UNKNOWN_ERROR
                   (Status.code_to_str !! K)) h'
    ∧ Status.ToString Status.Ok h' = Returns STATUS_CODE_OK h'
    ∧ Status.ToString this h' ≠ Status.ToString Status.Ok h'.
Proof.
  intros HK.
  set (l := fresh (dom h)). set (h' := <[l := State.mk K ""]> h).
  assert (h' !! l = Some (State.mk K "")) as Hl by apply lookup_insert_eq.
  exists (Status.mk (Some l)), h'.
  split; [by apply Status_returns|].
  rewrite (CodeAsString_at h' l _ Hl), (ToString_at h' l _ Hl). simpl.
  split; [done|]. split; [done|]. split.
  - intros [= E]. by apply append_separator_neq in E.
  - split; [done|]. rewrite code_to_str_lookup. by destruct K.
Qed.

Lemma ToString_empty_message_IOError :
  ∃ (this : Status.t) (h' : heap),
    Status.Status StatusCode.IOError "" ∅ = Returns this h'
    ∧ Status.CodeAsString this h' = Returns "IOError" h'
    ∧ Status.ToString this h' = Returns "IOError: " h'
    ∧ Status.ToString this h' ≠ Returns "IOError" h'
    ∧ Status.ToString Status.Ok h' = Returns "OK" h'
    ∧ Status.ToString this h' ≠ Status.ToString Status.Ok h'.
Proof.
  apply (ToString_empty_message StatusCode.IOError ∅). discriminate.
Defined.

Example ToString_IOError_empty :
  (this ← Status.Status StatusCode.IOError ""; Status.ToString this) ∅
  = Returns "IOError: " {[ 1%positive := State.mk StatusCode.IOError "" ]}.
Proof. vm_compute. reflexivity. Qed.

(** ** Copying *)

Lemma delete_valid (h : heap) (this : Status.t) :
  valid h this →
  delete_ (Status.state_ this) h = Returns tt (release (Status.state_ this) h).
Proof.
  destruct this as [[l|]]; unfold valid; simpl; [|done].
  intros [st Hst]. unfold delete_. by rewrite Hst.
Qed.

Lemma dom_release (p : ptr) (h : heap) : dom (release p h) = dom h ∖ cells p.
Proof.
  destruct p as [l|]; simpl; [apply dom_delete_L|].
  by rewrite difference_empty_L.
Qed.

Lemma lookup_release_ne (p : ptr) (h : heap) (l : loc) :
  l ∉ cells p → release p h !! l = h !! l.
Proof.
  destruct p as [l'|]; simpl; [|done].
  intros Hl. apply lookup_delete_ne. set_solver.
Qed.

(** What [CopyFrom] returns when the destination and the source are valid and
    do not share a payload: the payload of the destination is released, and
    the source's payload, if any, is copied to a fresh object. *)
Lemma CopyFrom_returns (h : heap) (this src : Status.t) :
  valid h this →
  valid h src →
  (Status.IsOk src = false → Status.state_ this ≠ Status.state_ src) →
  let h1 := release (Status.state_ this) h in
  Status.CopyFrom this (Status.state_ src) h =
    match Status.state_ src with
    | None => Returns (Status.mk nullptr) h1
    | Some ls =>
        match h !! ls with
        | Some st =>
            Returns (Status.mk (Some (fresh (dom h1))))
                    (<[fresh (dom h1) := st]> h1)
        | None => Undefined
        end
    end.
Proof.
  intros Hthis Hsrc Hns h1. unfold Status.CopyFrom.
  unfold mbind at 1, exec_bind. rewrite (delete_valid h this Hthis).
  fold h1. destruct src as [[ls|]]; simpl in *; [|done].
  destruct Hsrc as [st Hst]. rewrite Hst.
  assert (h1 !! ls = Some st) as H1.
  { unfold h1. rewrite lookup_release_ne; [done|].
    specialize (Hns eq_refl).
    destruct (Status.state_ this) as [lt|]; simpl;
      [apply not_elem_of_singleton; congruence | apply not_elem_of_empty]. }
  exec_unfold. by rewrite H1.
Qed.

(** Handing a status its own payload makes [CopyFrom] read the object it has
    just deleted. *)
Lemma CopyFrom_self_undefined (h : heap) (this : Status.t) :
  valid h this →
  Status.IsOk this = false →
  Status.CopyFrom this (Status.state_ this) h = Undefined.
Proof.
  destruct this as [[l|]]; unfold valid; simpl; [|done].
  intros [st Hst] _. unfold Status.CopyFrom; simpl. exec_unfold.
  by rewrite Hst, lookup_delete_eq.
Qed.

(** C7. [CopyFrom] from a valid source into a valid destination that does
    not share the source's payload returns a status with the observable kind
    and message of the source: a success for a success, and for a failure a
    status that owns a fresh object (not the source's) holding the same code
    and message.  The payload the destination held before is released, no
    other object changes (the source keeps its own), and destroying the
    source or assigning to its payload afterwards leaves the kind and the
    message of the copy as they are. *)
Theorem CopyFrom_independent (h : heap) (this src : Status.t) :
  valid h this →
  valid h src →
  (Status.IsOk src = false → Status.state_ this ≠ Status.state_ src) →
  ∃ (this' : Status.t) (h' : heap) (K : StatusCode.t) (M : string),
    Status.CopyFrom this (Status.state_ src) h = Returns this' h'
    ∧ Status.code src h = Returns K h
    ∧ Status.Message src h = Returns M h
    ∧ Status.IsOk this' = Status.IsOk src
    ∧ Status.code this' h' = Returns K h'
    ∧ Status.Message this' h' = Returns M h'
    ∧ (∀ (ls : loc) (st : State.t),
         Status.state_ src = Some ls →
         h !! ls = Some st →
         ∃ p : loc,
           Status.state_ this' = Some p ∧ p ≠ ls
           ∧ h' !! p = Some st ∧ h' !! ls = Some st)
    ∧ (Status.state_ src = nullptr → Status.state_ this' = nullptr)
    ∧ cells (Status.state_ this') ## cells (Status.state_ src)
    ∧ dom h' = (dom h ∖ cells (Status.state_ this))
               ∪ cells (Status.state_ this')
    ∧ (∀ l : loc,
         l ∉ cells (Status.state_ this) →
         l ∉ cells (Status.state_ this') →
         h' !! l = h !! l)
    ∧ (∃ h'' : heap,
         Status.destroy src h' = Returns tt h''
         ∧ Status.code this' h'' = Returns K h''
         ∧ Status.Message this' h'' = Returns M h'')
    ∧ (∀ f : State.t → State.t,
         Status.IsOk src = false →
         ∃ h'' : heap,
           update (Status.state_ src) f h' = Returns tt h''
           ∧ Status.code this' h'' = Returns K h''
           ∧ Status.Message this' h'' = Returns M h'').
Proof.
  intros Hthis Hsrc Hns.
  pose proof (CopyFrom_returns h this src Hthis Hsrc Hns) as Hcf.
  simpl in Hcf. destruct src as [[ls|]]; simpl in *.
  - destruct Hsrc as [st Hst]. rewrite Hst in Hcf.
    set (h1 := release (Status.state_ this) h) in *.
    set (p := fresh (dom h1)) in *.
    set (h' := <[p := st]> h1) in *.
    assert (ls ∉ cells (Status.state_ this)) as Hls.
    { specialize (Hns eq_refl).
      destruct (Status.state_ this) as [lt|]; simpl;
        [apply not_elem_of_singleton; congruence | apply not_elem_of_empty]. }
    assert (h1 !! ls = Some st) as H1
      by (unfold h1; by rewrite lookup_release_ne).
    assert (p ≠ ls) as Hp.
    { intros E. pose proof (fresh_unused h1) as Hf. fold p in Hf.
      rewrite E, H1 in Hf. discriminate. }
    assert (h' !! p = Some st) as Hp' by apply lookup_insert_eq.
    assert (h' !! ls = Some st) as Hls'
      by (unfold h'; by rewrite lookup_insert_ne).
    exists (Status.mk (Some p)), h', (State.code st), (State.msg st).
    split; [done|].
    split; [by apply code_at|]. split; [by apply Message_at|].
    split; [done|].
    split; [by apply code_at|]. split; [by apply Message_at|].
    split.
    { intros ls' st' [= <-] Hst'. rewrite Hst in Hst'. injection Hst' as <-.
      by exists p. }
    split; [discriminate|].
    split; [simpl; by apply disjoint_singleton_l, not_elem_of_singleton|].
    split.
    { unfold h'. rewrite dom_insert_L. unfold h1. rewrite dom_release.
      simpl. apply union_comm_L. }
    split.
    { intros l Hl Hlp. simpl in Hlp. apply not_elem_of_singleton in Hlp.
      unfold h'. rewrite lookup_insert_ne by done.
      by apply lookup_release_ne. }
    split.
    + exists (delete ls h'). unfold Status.destroy, delete_; simpl.
      rewrite Hls'. split; [done|].
      assert (delete ls h' !! p = Some st) as Hd
        by (by rewrite lookup_delete_ne).
      split; [by apply code_at | by apply Message_at].
    + intros f _. exists (<[ls := f st]> h'). unfold update.
      rewrite Hls'. split; [done|].
      assert (<[ls := f st]> h' !! p = Some st) as Hu
        by (by rewrite lookup_insert_ne).
      split; [by apply code_at | by apply Message_at].
  - exists (Status.mk nullptr), (release (Status.state_ this) h),
      StatusCode.OK, "".
    split; [done|]. do 7 (split; [done|]). simpl.
    split; [apply disjoint_empty_l|].
    split; [by rewrite dom_release, union_empty_r_L|].
    split; [intros l Hl _; by apply lookup_release_ne|].
    split; [by eexists|]. intros f Hf. discriminate.
Qed.

(** Assigning the second failure to the first, then destroying the second:
    the copy still reads "disk". *)
Lemma CopyFrom_independent_two_failures :
  ∃ (this' : Status.t) (h' h'' : heap),
    Status.CopyFrom (Status.mk (Some 1%positive)) (Some 2%positive)
      two_failures = Returns this' h'
    ∧ Status.destroy (Status.mk (Some 2%positive)) h' = Returns tt h''
    ∧ Status.code this' h'' = Returns StatusCode.IOError h''
    ∧ Status.Message this' h'' = Returns "disk" h''.
Proof.
  destruct (CopyFrom_independent two_failures
              (Status.mk (Some 1%positive)) (Status.mk (Some 2%positive)))
    as (this' & h' & K & M & Hcopy & HK & HM & _ & _ & _ & _ & _ & _ & _ & _
        & (h'' & Hd & HK' & HM') & _).
  - unfold valid; simpl. by eexists.
  - unfold valid; simpl. by eexists.
  - intros _. discriminate.
  - vm_compute in HK, HM. injection HK as <-. injection HM as <-.
    by exists this', h', h''.
Defined.

Example CopyFrom_two_failures_run :
  (this' ← Status.CopyFrom (Status.mk (Some 1%positive)) (Some 2%positive);
   Status.destroy (Status.mk (Some 2%positive));;
   Status.ToString this') two_failures
  = Returns "IOError: disk"
      {[ 3%positive := State.mk StatusCode.IOError "disk" ]}.
Proof. vm_compute. reflexivity. Qed.

Example CopyFrom_success_run :
  (this' ← Status.CopyFrom (Status.mk (Some 1%positive)) nullptr;
   Status.ToString this') two_failures
  = Returns "OK" {[ 2%positive := State.mk StatusCode.IOError "disk" ]}.
Proof. vm_compute. reflexivity. Qed.

(** * Further properties of the code *)

(** ** The tables as a pair *)

(** Every key of [str_to_code] is a canonical string, and its value is the
    kind that [code_to_str] maps to that string. *)
Lemma str_to_code_cases (s : string) :
  (∃ c : StatusCode.t,
     s ∈ canonical_strings
     ∧ Status.str_to_code !! s = Some c
     ∧ Status.code_to_str !! c = Some s)
  ∨ ((s ∉ canonical_strings) ∧ Status.str_to_code !! s = None).
Proof.
  destruct (decide (s ∈ canonical_strings)) as [Hs|Hs].
  - left. pose proof Hs as Hs'. unfold canonical_strings in Hs'.
    repeat (apply elem_of_cons in Hs' as [->|Hs'];
            [eexists; split; [done|]; split; by vm_compute|]).
    by apply elem_of_nil in Hs'.
  - right. split; [done|]. by apply str_to_code_lookup_None.
Qed.

(** X1. The two tables are inverse of each other as finite maps: [c] has the
    row [s] in [code_to_str] exactly when [s] has the row [c] in
    [str_to_code], for every value [c] of the enumeration and every string
    [s]. *)
Theorem tables_inverse (c : StatusCode.t) (s : string) :
  Status.code_to_str !! c = Some s ↔ Status.str_to_code !! s = Some c.
Proof.
  split.
  - rewrite code_to_str_lookup. destruct c; intros [= <-]; by vm_compute.
  - intros Hs.
    destruct (str_to_code_cases s) as [(c' & _ & Hc' & Hrow)|[_ Hn]];
      congruence.
Qed.

(** X2. [StringToCode] returns one of the seven kinds that the file names,
    whatever the string. *)
Theorem StringToCode_range (s : string) :
  Status.StringToCode s ∈ StatusCode.named.
Proof.
  unfold Status.StringToCode.
  destruct (str_to_code_cases s) as [(c & _ & -> & Hrow)|[_ ->]].
  - apply code_to_str_named. by eexists.
  - unfold StatusCode.named. set_solver.
Qed.

(** X3. [IOError] is the only ambiguous result of [StringToCode]: when the
    result is another kind [K], the string is the one [code_to_str] has for
    [K]. *)
Theorem StringToCode_preimage (s : string) (K : StatusCode.t) :
  Status.StringToCode s = K →
  K ≠ StatusCode.IOError →
  Status.code_to_str !! K = Some s.
Proof.
  unfold Status.StringToCode.
  destruct (str_to_code_cases s) as [(c & _ & -> & Hrow)|[_ ->]];
    congruence.
Qed.

Lemma StringToCode_preimage_Key_error :
  Status.code_to_str !! StatusCode.KeyError = Some "Key error".
Proof.
  apply (StringToCode_preimage "Key error" StatusCode.KeyError);
    [by vm_compute | discriminate].
Defined.

(** ** Rendering and decoding together *)

(** What [CodeAsString] and [ToString] return for a live payload, in terms of
    [kind_string]. *)
Lemma kind_string_canonical (st : State.t) :
  kind_string st ∈ canonical_strings.
Proof.
  unfold kind_string. rewrite code_to_str_lookup.
  destruct (State.code st); unfold canonical_strings; set_solver.
Qed.

Lemma rendered_not_canonical (st : State.t) :
  kind_string st +:+ ": " +:+ State.msg st ∉ canonical_strings.
Proof.
  unfold kind_string. rewrite code_to_str_lookup.
  unfold canonical_strings. rewrite !not_elem_of_cons.
  destruct (State.code st); repeat split;
    try apply not_elem_of_nil; vm_compute; discriminate.
Qed.

(** X4. [CodeAsString] of a valid status returns one of the seven canonical
    strings, also when the stored code has no row in the table; so decoding
    what it returns always finds a row of [str_to_code]. *)
Theorem CodeAsString_range (h : heap) (this : Status.t) :
  valid h this →
  ∃ s : string,
    Status.CodeAsString this h = Returns s h
    ∧ s ∈ canonical_strings
    ∧ is_Some (Status.str_to_code !! s).
Proof.
  destruct this as [[l|]]; unfold valid; simpl.
  - intros [st Hst]. exists (kind_string st).
    split; [by apply CodeAsString_at|].
    pose proof (kind_string_canonical st) as Hk. split; [done|].
    destruct (str_to_code_cases (kind_string st))
      as [(c & _ & -> & _)|[Hn _]]; [by eexists | done].
  - intros _. exists STATUS_CODE_OK. split; [done|].
    split; [unfold canonical_strings; set_solver | by eexists].
Qed.

Lemma CodeAsString_range_two_failures :
  ∃ s : string,
    Status.CodeAsString (Status.mk (Some 2%positive)) two_failures
    = Returns s two_failures
    ∧ s ∈ canonical_strings
    ∧ is_Some (Status.str_to_code !! s).
Proof.
  apply (CodeAsString_range two_failures (Status.mk (Some 2%positive))).
  unfold valid; simpl. by eexists.
Defined.

(** X5. A failure whose stored code has no row in [code_to_str] does not
    survive the round trip: [CodeAsString] then [StringToCode] gives
    [UnknownError], not the stored code and not the [IOError] of the decoding
    fallback. *)
Theorem roundtrip_without_row (h : heap) (l : loc) (st : State.t) :
  h !! l = Some st →
  Status.code_to_str !! State.code st = None →
  ∃ s : string,
    Status.CodeAsString (Status.mk (Some l)) h = Returns s h
    ∧ Status.StringToCode s = StatusCode.UnknownError
    ∧ Status.StringToCode s ≠ State.code st.
Proof.
  intros Hl Hrow. exists STATUS_CODE_UNKNOWN_ERROR.
  rewrite (CodeAsString_at h l st Hl), Hrow. split; [done|].
  split; [by vm_compute|].
  intros E. rewrite <- E in Hrow. by vm_compute in Hrow.
Qed.

Lemma roundtrip_without_row_Unlisted :
  ∃ s : string,
    Status.CodeAsString (Status.mk (Some 1%positive))
      {[ 1%positive := State.mk (StatusCode.Unlisted 3) "m" ]}
    = Returns s {[ 1%positive := State.mk (StatusCode.Unlisted 3) "m" ]}
    ∧ Status.StringToCode s = StatusCode.UnknownError
    ∧ Status.StringToCode s ≠ StatusCode.Unlisted 3.
Proof.
  apply (roundtrip_without_row _ 1%positive
           (State.mk (StatusCode.Unlisted 3) "m")); reflexivity.
Defined.

(** X6. What [ToString] returns for a failure is never a key of
    [str_to_code]: [StringToCode] maps it to [IOError], whatever the kind
    and the message of the failure. *)
Theorem ToString_decodes_to_IOError (h : heap) (l : loc) (st : State.t) :
  h !! l = Some st →
  ∃ s : string,
    Status.ToString (Status.mk (Some l)) h = Returns s h
    ∧ Status.str_to_code !! s = None
    ∧ Status.StringToCode s = StatusCode.IOError.
Proof.
  intros Hl. eexists. split; [by apply ToString_at|].
  fold (kind_string st).
  pose proof (str_to_code_lookup_None _ (rendered_not_canonical st)) as Hn.
  split; [done|]. unfold Status.StringToCode. by rewrite Hn.
Qed.

Lemma ToString_decodes_to_IOError_two_failures :
  ∃ s : string,
    Status.ToString (Status.mk (Some 1%positive)) two_failures
    = Returns s two_failures
    ∧ Status.str_to_code !! s = None
    ∧ Status.StringToCode s = StatusCode.IOError.
Proof.
  apply (ToString_decodes_to_IOError two_failures 1%positive
           (State.mk StatusCode.KeyError "k")).
  reflexivity.
Defined.

(** X7. For a valid status, [ToString] returns "OK" exactly when [state_] is
    null: no failure prints as the success status, whatever it stores. *)
Theorem ToString_OK_iff (h : heap) (this : Status.t) :
  valid h this →
  Status.ToString this h = Returns STATUS_CODE_OK h
  ↔ Status.state_ this = nullptr.
Proof.
  destruct this as [[l|]]; unfold valid; simpl; [|done].
  intros [st Hst]. rewrite (ToString_at h l st Hst). fold (kind_string st).
  split; [|done]. intros [= E].
  pose proof (rendered_not_canonical st) as Hn. rewrite E in Hn.
  contradict Hn. unfold canonical_strings. set_solver.
Qed.

Lemma ToString_OK_iff_two_failures :
  Status.ToString (Status.mk (Some 1%positive)) two_failures
  = Returns STATUS_CODE_OK two_failures
  ↔ Some 1%positive = nullptr.
Proof.
  apply (ToString_OK_iff two_failures (Status.mk (Some 1%positive))).
  unfold valid; simpl. by eexists.
Defined.

(** X8. [ToString] tells failures apart when their codes have a row in
    [code_to_str]: two such failures that print the same store the same code
    and the same message. *)
Theorem ToString_injective (h : heap) (l1 l2 : loc) (st1 st2 : State.t) :
  h !! l1 = Some st1 →
  h !! l2 = Some st2 →
  is_Some (Status.code_to_str !! State.code st1) →
  is_Some (Status.code_to_str !! State.code st2) →
  Status.ToString (Status.mk (Some l1)) h
  = Status.ToString (Status.mk (Some l2)) h →
  st1 = st2.
Proof.
  intros H1 H2 [s1 Hs1] [s2 Hs2].
  rewrite (ToString_at h l1 st1 H1), (ToString_at h l2 st2 H2).
  rewrite Hs1, Hs2. simpl. intros [= E].
  rewrite code_to_str_lookup in Hs1, Hs2.
  destruct st1 as [c1 m1], st2 as [c2 m2]; simpl in *.
  destruct c1; try discriminate; injection Hs1 as <-;
    destruct c2; try discriminate; injection Hs2 as <-;
    vm_compute in E; try discriminate; by injection E as ->.
Qed.

Lemma ToString_injective_two_failures :
  State.mk StatusCode.IOError "disk" = State.mk StatusCode.IOError "disk".
Proof.
  apply (ToString_injective
           (<[3%positive := State.mk StatusCode.IOError "disk"]> two_failures)
           2%positive 3%positive); try reflexivity; by eexists.
Defined.

(** ** Ownership of the payloads *)

Lemma payloads_cons (this : Status.t) (ss : list Status.t) :
  payloads (this :: ss) =
    match Status.state_ this with
    | None => payloads ss
    | Some l => l :: payloads ss
    end.
Proof. unfold payloads; simpl. by destruct (Status.state_ this). Qed.

Lemma owns_valid (h : heap) (ss : list Status.t) (s : Status.t) :
  owns h ss → s ∈ ss → valid h s.
Proof.
  intros [_ Hdom] Hs. unfold valid.
  destruct (Status.state_ s) as [l|] eqn:Hl; [|done].
  apply elem_of_dom. rewrite Hdom. apply elem_of_list_to_set.
  apply list_elem_of_omap. by exists s.
Qed.

(** Once the first status has let go of its payload, the others own what is
    left. *)
Lemma owns_release (h : heap) (this : Status.t) (ss : list Status.t) :
  owns h (this :: ss) →
  owns (release (Status.state_ this) h) ss.
Proof.
  intros [Hnd Hdom]. rewrite payloads_cons in Hnd, Hdom.
  unfold owns. rewrite dom_release.
  destruct (Status.state_ this) as [l|]; simpl.
  - apply NoDup_cons in Hnd as [Hl Hnd]. split; [done|].
    rewrite Hdom, list_to_set_cons.
    assert (l ∉ (list_to_set (payloads ss) : gset loc)) as Hl'
      by (by rewrite elem_of_list_to_set).
    rewrite difference_union_distr_l_L, difference_diag_L, union_empty_l_L.
    by apply difference_disjoint_L, disjoint_singleton_r.
  - split; [done|]. by rewrite difference_empty_L.
Qed.

(** A fresh object extends the ownership by the status that points to it. *)
Lemma owns_alloc (h : heap) (ss : list Status.t) (st : State.t) :
  owns h ss →
  owns (<[fresh (dom h) := st]> h)
       (Status.mk (Some (fresh (dom h))) :: ss).
Proof.
  intros [Hnd Hdom]. unfold owns. rewrite payloads_cons; simpl. split.
  - apply NoDup_cons. split; [|done].
    rewrite <- (elem_of_list_to_set (C := gset loc)), <- Hdom.
    apply is_fresh.
  - by rewrite dom_insert_L, Hdom.
Qed.

(** X9. The constructor leaves every object that was live as it was, and the
    payload of the status it returns is at an address that was not live: the
    new status shares its payload with no existing one. *)
Theorem Status_frame (K : StatusCode.t) (M : string) (h : heap) :
  K ≠ StatusCode.OK →
  ∃ (l : loc) (h' : heap),
    Status.Status K M h = Returns (Status.mk (Some l)) h'
    ∧ h !! l = None
    ∧ dom h' = {[ l ]} ∪ dom h
    ∧ ∀ (l' : loc) (st : State.t), h !! l' = Some st → h' !! l' = Some st.
Proof.
  intros HK. exists (fresh (dom h)), (<[fresh (dom h) := State.mk K M]> h).
  pose proof (fresh_unused h) as Hf.
  split; [by apply Status_returns|]. split; [done|].
  split; [apply dom_insert_L|].
  intros l' st Hl'. rewrite lookup_insert_ne; [done|]. congruence.
Qed.

Lemma Status_frame_two_failures :
  ∃ (l : loc) (h' : heap),
    Status.Status StatusCode.Invalid "bad" two_failures
    = Returns (Status.mk (Some l)) h'
    ∧ two_failures !! l = None
    ∧ dom h' = {[ l ]} ∪ dom two_failures
    ∧ ∀ (l' : loc) (st : State.t),
        two_failures !! l' = Some st → h' !! l' = Some st.
Proof.
  apply (Status_frame StatusCode.Invalid "bad" two_failures). discriminate.
Defined.

(** X10. The constructor keeps the ownership invariant: if the statuses [ss]
    share no payload and their payloads are exactly the live objects, the
    same holds once the new status is added to them. *)
Theorem Status_keeps_owns
    (K : StatusCode.t) (M : string) (h : heap) (ss : list Status.t) :
  owns h ss →
  K ≠ StatusCode.OK →
  ∃ (this : Status.t) (h' : heap),
    Status.Status K M h = Returns this h'
    ∧ owns h' (this :: ss).
Proof.
  intros Ho HK. eexists _, _. split; [by apply Status_returns|].
  by apply owns_alloc.
Qed.

Lemma Status_keeps_owns_two_failures :
  ∃ (this : Status.t) (h' : heap),
    Status.Status StatusCode.Invalid "bad" two_failures = Returns this h'
    ∧ owns h' [this; Status.mk (Some 1%positive); Status.Ok;
               Status.mk (Some 2%positive)].
Proof.
  apply (Status_keeps_owns StatusCode.Invalid "bad" two_failures
           [Status.mk (Some 1%positive); Status.Ok;
            Status.mk (Some 2%positive)]); [|discriminate].
  split; [refine (bool_decide_unpack _ _); by vm_compute | by vm_compute].
Defined.

(** X11. [CopyFrom] keeps the ownership invariant: when [this] and the other
    statuses [ss] own the heap and the source is one of [ss], the call
    returns, and the updated [this] and [ss] own the new heap: nothing is
    shared between them, the old payload of [this] is not leaked and no
    payload dangles. *)
Theorem CopyFrom_keeps_owns
    (h : heap) (this src : Status.t) (ss : list Status.t) :
  owns h (this :: ss) →
  src ∈ ss →
  ∃ (this' : Status.t) (h' : heap),
    Status.CopyFrom this (Status.state_ src) h = Returns this' h'
    ∧ owns h' (this' :: ss).
Proof.
  intros Ho Hsrc.
  assert (valid h this) as Hvt by (apply (owns_valid h _ _ Ho); set_solver).
  assert (valid h src) as Hvs by (apply (owns_valid h _ _ Ho); set_solver).
  assert (Status.IsOk src = false → Status.state_ this ≠ Status.state_ src)
    as Hns.
  { intros Hf E. destruct Ho as [Hnd _]. rewrite payloads_cons in Hnd.
    destruct (Status.state_ this) as [lt|] eqn:Ht.
    - apply NoDup_cons in Hnd as [Hlt _]. apply Hlt.
      apply list_elem_of_omap. by exists src.
    - symmetry in E. apply IsOk_null in E. congruence. }
  pose proof (CopyFrom_returns h this src Hvt Hvs Hns) as Hcf. simpl in Hcf.
  pose proof (owns_release h this ss Ho) as Hrel.
  destruct (Status.state_ src) as [ls|] eqn:Hls.
  - unfold valid in Hvs. rewrite Hls in Hvs. destruct Hvs as [st Hst].
    rewrite Hst in Hcf. eexists _, _. split; [exact Hcf|].
    by apply owns_alloc.
  - eexists _, _. split; [exact Hcf|].
    unfold owns. by rewrite payloads_cons.
Qed.

Lemma CopyFrom_keeps_owns_two_failures :
  ∃ (this' : Status.t) (h' : heap),
    Status.CopyFrom (Status.mk (Some 1%positive)) (Some 2%positive)
      two_failures = Returns this' h'
    ∧ owns h' [this'; Status.Ok; Status.mk (Some 2%positive)].
Proof.
  apply (CopyFrom_keeps_owns two_failures
           (Status.mk (Some 1%positive)) (Status.mk (Some 2%positive))
           [Status.Ok; Status.mk (Some 2%positive)]).
  - split; [refine (bool_decide_unpack _ _); by vm_compute | by vm_compute].
  - apply list_elem_of_further, list_elem_of_here.
Defined.

(** X12. [CopyFrom] must not be handed the payload of the status it is called
    on: it deletes [state_] before it reads [state], so for a failure the
    call reads a deleted object (undefined behaviour); for the success
    status, whose [state_] is null, the same call returns the success status
    and leaves the heap as it is. *)
Theorem CopyFrom_own_payload (h : heap) (this : Status.t) :
  valid h this →
  Status.CopyFrom this (Status.state_ this) h =
    match Status.state_ this with
    | None => Returns (Status.mk nullptr) h
    | Some _ => Undefined
    end.
Proof.
  destruct this as [[l|]]; unfold valid; simpl; [|done].
  intros [st Hst]. unfold Status.CopyFrom; simpl. exec_unfold.
  by rewrite Hst, lookup_delete_eq.
Qed.

Lemma CopyFrom_own_payload_two_failures :
  Status.CopyFrom (Status.mk (Some 1%positive)) (Some 1%positive)
    two_failures = Undefined.
Proof.
  apply (CopyFrom_own_payload two_failures (Status.mk (Some 1%positive))).
  unfold valid; simpl. by eexists.
Defined.
